(** Shallow embedding of src/Task_1.py (Shor nine-qubit code demo on qiskit).

    Circuits are modelled as qiskit's [QuantumCircuit] value: a qubit count,
    a classical-bit count and the list of appended instructions.  Builder
    calls that qiskit would reject with a [CircuitError] (qubit or clbit out
    of range, repeated qubit in one gate, composing a larger circuit,
    inverting a measurement) return [None].  The simulator is a state-vector
    simulator over basis indices in qiskit's little-endian order: qubit [q]
    is bit [q] of the index. *)

From Stdlib Require Import List String Arith NArith ZArith Lia QArith Qabs Lqa Reals Lra.
From Stdlib Require Import FunctionalExtensionality Qreals.
Import ListNotations.
Open Scope string_scope.
Open Scope list_scope.

(* ------------------------------------------------------------------ *)
(** * Option monad (Python exceptions) *)

Notation "'let*' x ':=' c1 'in' c2" :=
  (match c1 with Some x => c2 | None => None end)
  (at level 61, x pattern, c1 at next level, right associativity).

(* ------------------------------------------------------------------ *)
(** * Circuits *)

(** The instructions used by the program.  Rotation angles are kept as
    rationals: they are never simulated here. *)
Inductive instr : Type :=
| IH (q : nat) | IX (q : nat) | IY (q : nat) | IZ (q : nat)
| IS (q : nat) | ISdg (q : nat) | IT (q : nat) | ITdg (q : nat)
| IRX (theta : Q) (q : nat) | IRY (theta : Q) (q : nat) | IRZ (theta : Q) (q : nat)
| ICX (c t : nat) | ICZ (a b : nat) | ISwap (a b : nat)
| IBarrier (qs : list nat)
| IMeasure (q c : nat).

Record QuantumCircuit : Type := mkCircuit {
  num_qubits : nat;
  num_clbits : nat;
  data : list instr
}.

(** [QuantumCircuit(n, m)] *)
Definition new_circuit (n m : nat) : QuantumCircuit := mkCircuit n m [].

Definition instr_qubits (g : instr) : list nat :=
  match g with
  | IH q | IX q | IY q | IZ q | IS q | ISdg q | IT q | ITdg q
  | IRX _ q | IRY _ q | IRZ _ q | IMeasure q _ => [q]
  | ICX a b | ICZ a b | ISwap a b => [a; b]
  | IBarrier qs => qs
  end.

Definition instr_clbits (g : instr) : list nat :=
  match g with IMeasure _ c => [c] | _ => [] end.

(** qiskit checks, at append time, that every qubit and clbit argument is in
    range and that a gate does not name one qubit twice. *)
Definition instr_ok (qc : QuantumCircuit) (g : instr) : bool :=
  forallb (fun q => Nat.ltb q (num_qubits qc)) (instr_qubits g)
  && forallb (fun c => Nat.ltb c (num_clbits qc)) (instr_clbits g)
  && match g with
     | ICX a b | ICZ a b | ISwap a b => negb (Nat.eqb a b)
     | _ => true
     end.

Definition append (g : instr) (qc : QuantumCircuit) : option QuantumCircuit :=
  if instr_ok qc g
  then Some (mkCircuit (num_qubits qc) (num_clbits qc) (data qc ++ [g]))
  else None.

Definition h q := append (IH q).
Definition x q := append (IX q).
Definition z q := append (IZ q).
Definition s q := append (IS q).
Definition sdg q := append (ISdg q).
Definition t q := append (IT q).
Definition tdg q := append (ITdg q).
Definition rx th q := append (IRX th q).
Definition ry th q := append (IRY th q).
Definition rz th q := append (IRZ th q).
Definition cx c tg := append (ICX c tg).
Definition cz a b := append (ICZ a b).
Definition swap a b := append (ISwap a b).
Definition measure q c := append (IMeasure q c).

(** [qc.barrier()] with no argument spans every qubit of the circuit. *)
Definition barrier (qc : QuantumCircuit) : option QuantumCircuit :=
  append (IBarrier (seq 0 (num_qubits qc))) qc.

(** [self.compose(other)]: the instructions of [other] are appended on the
    first qubits and clbits of [self]; qiskit refuses an [other] wider than
    [self]. *)
Definition compose (self other : QuantumCircuit) : option QuantumCircuit :=
  if Nat.ltb (num_qubits self) (num_qubits other)
     || Nat.ltb (num_clbits self) (num_clbits other)
  then None
  else Some (mkCircuit (num_qubits self) (num_clbits self) (data self ++ data other)).

(** The inverse of one instruction; a measurement has none. *)
Definition inverse_instr (g : instr) : option instr :=
  match g with
  | IS q => Some (ISdg q)
  | ISdg q => Some (IS q)
  | IT q => Some (ITdg q)
  | ITdg q => Some (IT q)
  | IRX th q => Some (IRX (- th) q)
  | IRY th q => Some (IRY (- th) q)
  | IRZ th q => Some (IRZ (- th) q)
  | IMeasure _ _ => None
  | g => Some g
  end.

Fixpoint inverse_data (l : list instr) : option (list instr) :=
  match l with
  | [] => Some []
  | g :: l' =>
      let* g' := inverse_instr g in
      let* r := inverse_data l' in
      Some (r ++ [g'])
  end.

(** [qc.inverse()]: the instructions reversed, each one inverted. *)
Definition inverse (qc : QuantumCircuit) : option QuantumCircuit :=
  let* d := inverse_data (data qc) in
  Some (mkCircuit (num_qubits qc) (num_clbits qc) d).

(* ------------------------------------------------------------------ *)
(** * The builders of Task_1.py *)

(** Step 1, [shor_encode]. *)
Definition shor_encode : option QuantumCircuit :=
  let qc := new_circuit 9 0 in
  (* Bit-flip protection (repetition code) *)
  let* qc := cx 0 3 qc in
  let* qc := cx 0 6 qc in
  (* Phase-flip protection (use Hadamard + repetition) *)
  let* qc := h 0 qc in
  let* qc := h 3 qc in
  let* qc := h 6 qc in
  let* qc := cx 0 1 qc in
  let* qc := cx 0 2 qc in
  let* qc := cx 3 4 qc in
  let* qc := cx 3 5 qc in
  let* qc := cx 6 7 qc in
  let* qc := cx 6 8 qc in
  Some qc.

(** Step 2, [apply_quantum_operations]. *)
Definition apply_quantum_operations : option QuantumCircuit :=
  let qc := new_circuit 9 0 in
  let* qc := h 0 qc in
  let* qc := rx (1#2) 1 qc in
  let* qc := ry (3#10) 2 qc in
  let* qc := rz (7#10) 3 qc in
  let* qc := s 4 qc in
  let* qc := sdg 5 qc in
  let* qc := t 6 qc in
  let* qc := tdg 7 qc in
  let* qc := x 8 qc in
  let* qc := cx 0 4 qc in
  let* qc := cz 1 5 qc in
  let* qc := swap 2 6 qc in
  Some qc.

(** Step 3, [apply_error_correction(syndrome="000000")]: the syndrome
    argument is never read. *)
Definition apply_error_correction (syndrome : string) : option QuantumCircuit :=
  let qc := new_circuit 9 0 in
  let* qc := barrier qc in
  (* Apply basic correction (dummy) *)
  let* qc := x 0 qc in
  let* qc := z 0 qc in
  let* qc := x 0 qc in
  let* qc := z 0 qc in
  Some qc.

(** Step 4, [shor_qec_circuit]. *)
Definition shor_qec_circuit : option QuantumCircuit :=
  let qc := new_circuit 9 1 in
  (* Prepare logical |+> = H|0> *)
  let* qc := h 0 qc in
  (* Apply quantum operations *)
  let* ops := apply_quantum_operations in
  let* qc := compose qc ops in
  (* Encode *)
  let* enc := shor_encode in
  let* qc := compose qc enc in
  let* qc := barrier qc in
  (* Apply simplified error correction *)
  let* corr := apply_error_correction "000000" in
  let* qc := compose qc corr in
  (* Decode *)
  let* enc' := shor_encode in
  let* dec := inverse enc' in
  let* qc := compose qc dec in
  (* Measure logical qubit *)
  let* qc := measure 0 0 qc in
  Some qc.

(** The circuit built by Step 7, [demonstrate_error_correction]. *)
Definition demonstrate_circuit : option QuantumCircuit :=
  let qc := new_circuit 9 1 in
  (* Prepare |1> state *)
  let* qc := x 0 qc in
  (* Encode *)
  let* enc := shor_encode in
  let* qc := compose qc enc in
  (* Introduce bit-flip error on qubit 4 *)
  let* qc := x 4 qc in
  (* Decode *)
  let* enc' := shor_encode in
  let* dec := inverse enc' in
  let* qc := compose qc dec in
  (* Measure *)
  let* qc := measure 0 0 qc in
  Some qc.

(** The same construction as [demonstrate_circuit] with the faulty qubit
    [k] in place of the literal 4. *)
Definition fault_circuit (k : nat) : option QuantumCircuit :=
  let qc := new_circuit 9 1 in
  let* qc := x 0 qc in
  let* enc := shor_encode in
  let* qc := compose qc enc in
  let* qc := x k qc in
  let* enc' := shor_encode in
  let* dec := inverse enc' in
  let* qc := compose qc dec in
  let* qc := measure 0 0 qc in
  Some qc.

(** The circuit built by Step 8, [visualize_circuits]. *)
Definition simple_qec : option QuantumCircuit :=
  let qc := new_circuit 9 1 in
  let* qc := h 0 qc in
  let* enc := shor_encode in
  let* qc := compose qc enc in
  let* qc := barrier qc in
  let* enc' := shor_encode in
  let* dec := inverse enc' in
  let* qc := compose qc dec in
  let* qc := measure 0 0 qc in
  Some qc.

(* ------------------------------------------------------------------ *)
(** * State-vector simulation (qiskit_aer's AerSimulator without noise) *)

(** The arithmetic the simulated gates need on amplitudes: [a_hmul] is
    multiplication by 1/sqrt 2 and [a_norm2] the squared modulus. *)
Record AmpOps (A : Type) : Type := mkAmpOps {
  a_zero : A;
  a_one : A;
  a_add : A -> A -> A;
  a_sub : A -> A -> A;
  a_opp : A -> A;
  a_hmul : A -> A;
  a_norm2 : A -> A
}.
Arguments a_zero {A} _.
Arguments a_one {A} _.
Arguments a_add {A} _ _ _.
Arguments a_sub {A} _ _ _.
Arguments a_opp {A} _ _.
Arguments a_hmul {A} _ _.
Arguments a_norm2 {A} _ _.

(** Qubit [q] of basis index [i], little-endian as in qiskit. *)
Definition bit (q : nat) (i : N) : bool := N.testbit i (N.of_nat q).

(** The basis index with qubit [q] flipped. *)
Definition flip (q : nat) (i : N) : N := N.lxor i (2 ^ N.of_nat q).

Section Simulator.
Context {A : Type} (ops : AmpOps A).

Definition state := N -> A.

(** The all-zero initial state |0...0>. *)
Definition zero_state : state :=
  fun i => if N.eqb i 0 then a_one ops else a_zero ops.

(** The unitary of one instruction.  Only the gates of the encoder, of the
    fault injection and of the correction fragment are simulated (H, X, Z,
    CX and barriers); the others yield [None]. *)
Definition apply_gate (g : instr) (psi : state) : option state :=
  match g with
  | IH q => Some (fun i =>
      if bit q i then a_hmul ops (a_sub ops (psi (flip q i)) (psi i))
      else a_hmul ops (a_add ops (psi i) (psi (flip q i))))
  | IX q => Some (fun i => psi (flip q i))
  | IZ q => Some (fun i => if bit q i then a_opp ops (psi i) else psi i)
  | ICX c tg => Some (fun i => if bit c i then psi (flip tg i) else psi i)
  | IBarrier _ => Some psi
  | _ => None
  end.

(** Unitary evolution through an instruction list; a measurement inside it
    is not modelled. *)
Fixpoint run (l : list instr) (psi : state) : option state :=
  match l with
  | [] => Some psi
  | IMeasure _ _ :: _ => None
  | g :: l' => let* psi' := apply_gate g psi in run l' psi'
  end.

Fixpoint sum_upto (n : nat) (f : N -> A) : A :=
  match n with
  | O => a_zero ops
  | S n' => a_add ops (sum_upto n' f) (f (N.of_nat n'))
  end.

(** Probability that measuring qubit [q] of an [n]-qubit state gives [b]. *)
Definition prob_bit (n q : nat) (b : bool) (psi : state) : A :=
  sum_upto (2 ^ n) (fun i =>
    if Bool.eqb (bit q i) b then a_norm2 ops (psi i) else a_zero ops).

(** Probability of reading [b] in clbit 0 when a circuit ending in
    [measure(q, 0)] runs from |0...0>. *)
Definition measure_prob (qc : QuantumCircuit) (b : bool) : option A :=
  match rev (data qc) with
  | IMeasure q 0 :: rest =>
      let* psi := run (rev rest) zero_state in
      Some (prob_bit (num_qubits qc) q b psi)
  | _ => None
  end.

End Simulator.

(** ** Exact amplitudes a + b sqrt 2 with rational a, b *)

Record D : Type := mkD { dq : Q; dr : Q }.

Definition Dmk (a b : Q) : D := mkD (Qred a) (Qred b).

Definition D_ops : AmpOps D := {|
  a_zero := Dmk 0 0;
  a_one := Dmk 1 0;
  a_add := fun u v => Dmk (dq u + dq v) (dr u + dr v);
  a_sub := fun u v => Dmk (dq u - dq v) (dr u - dr v);
  a_opp := fun u => Dmk (- dq u) (- dr u);
  a_hmul := fun u => Dmk (dr u) (dq u / 2);
  a_norm2 := fun u => Dmk (dq u * dq u + 2 * (dr u * dr u)) (2 * (dq u * dr u))
|}.

(** ** Complex amplitudes over the reals *)

Definition Cplx : Type := (R * R)%type.

Definition C_ops : AmpOps Cplx := {|
  a_zero := (0%R, 0%R);
  a_one := (1%R, 0%R);
  a_add := fun u v => (fst u + fst v, snd u + snd v)%R;
  a_sub := fun u v => (fst u - fst v, snd u - snd v)%R;
  a_opp := fun u => (- fst u, - snd u)%R;
  a_hmul := fun u => (fst u / sqrt 2, snd u / sqrt 2)%R;
  a_norm2 := fun u => (fst u * fst u + snd u * snd u, 0)%R
|}.

(* ------------------------------------------------------------------ *)
(** * Noise model (Step 5) *)

(** A quantum error: the depolarizing channels it composes, as pairs
    (probability, number of qubits). *)
Definition QuantumError := list (Q * nat).

(** [qiskit_aer.noise.depolarizing_error(param, num_qubits)], external: it
    raises [NoiseError] ([None]) unless [num_qubits >= 1] and
    [0 <= param <= 4^n / (4^n - 1)]. *)
Definition depolarizing_error (param : Q) (n : nat) : option QuantumError :=
  let num_terms := Z.of_nat (4 ^ n) in
  let max_param := (num_terms # 1) / ((num_terms - 1) # 1) in
  if Nat.eqb n 0 then None
  else if negb (Qle_bool 0 param) || negb (Qle_bool param max_param) then None
  else Some [(param, n)].

(** A [NoiseModel] holding only all-qubit errors, keyed by instruction
    name. *)
Definition NoiseModel := list (string * QuantumError).

Definition NoiseModel_new : NoiseModel := [].

Fixpoint lookup_error (nm : NoiseModel) (name : string) : option QuantumError :=
  match nm with
  | [] => None
  | (k, e) :: nm' => if String.eqb k name then Some e else lookup_error nm' name
  end.

(** Adding an error for one instruction name: composed with the existing
    one if the name already has an error, appended otherwise. *)
Fixpoint add_error_for (name : string) (err : QuantumError) (nm : NoiseModel)
  : NoiseModel :=
  match nm with
  | [] => [(name, err)]
  | (k, e) :: nm' =>
      if String.eqb k name then (k, e ++ err) :: nm'
      else (k, e) :: add_error_for name err nm'
  end.

(** [noise_model.add_all_qubit_quantum_error(error, instructions)] *)
Definition add_all_qubit_quantum_error (err : QuantumError) (names : list string)
  (nm : NoiseModel) : NoiseModel :=
  fold_left (fun acc name => add_error_for name err acc) names nm.

Definition single_qubit_gates : list string :=
  ["h"; "x"; "y"; "z"; "s"; "sdg"; "t"; "tdg"; "rx"; "ry"; "rz"].

Definition two_qubit_gates : list string := ["cx"; "cz"; "swap"].

(** Step 5, [build_noise_model()]: no argument; [p1] and [p2] are locals. *)
Definition build_noise_model : option NoiseModel :=
  let noise_model := NoiseModel_new in
  let p1 := 1 # 100 in
  let p2 := 3 # 100 in
  let* error1 := depolarizing_error p1 1 in
  let noise_model := add_all_qubit_quantum_error error1 single_qubit_gates noise_model in
  let* error2 := depolarizing_error p2 2 in
  let noise_model := add_all_qubit_quantum_error error2 two_qubit_gates noise_model in
  Some noise_model.

(** A Python call of [build_noise_model] with the positional arguments
    [args]: the function declares no parameter, so a call with any argument
    raises [TypeError] before the body runs; without arguments the body runs, and a [NoiseError] of qiskit's
    [depolarizing_error] would propagate. Exceptions are named by their
    Python class. *)
Definition call_build_noise_model (args : list Q) : string + NoiseModel :=
  match args with
  | [] =>
      match build_noise_model with
      | Some nm => inr nm
      | None => inl "NoiseError"
      end
  | _ :: _ => inl "TypeError"
  end.

(* ------------------------------------------------------------------ *)
(** * Measurement counts and the comparison statistics (Step 6) *)

(** The dict returned by [get_counts()]: bitstring -> frequency. *)
Definition Counts := list (string * nat).

(** [counts.get(key, default)] *)
Fixpoint counts_get (counts : Counts) (key : string) (default : nat) : nat :=
  match counts with
  | [] => default
  | (k, v) :: c' => if String.eqb k key then v else counts_get c' key default
  end.

(** [counts.get(key, 0) / 1000] *)
Definition prob_of (counts : Counts) (key : string) : Q :=
  Z.of_nat (counts_get counts key 0) # 1000.

(** [abs(0.5 - prob_0) * 200] *)
Definition deviation (counts : Counts) : Q :=
  Qabs ((1 # 2) - prob_of counts "0") * 200.

(* ------------------------------------------------------------------ *)
(** * Backends and sampling *)

(** [AerSimulator(noise_model=...)]: only the noise model matters here. *)
Record AerSimulator : Type := mkAer { sim_noise_model : option NoiseModel }.

(** The backend of [demonstrate_error_correction]: [AerSimulator()]. *)
Definition demonstrate_backend : AerSimulator := mkAer None.

(** The backend of [run_comparison]. *)
Definition comparison_backend : option AerSimulator :=
  let* noise_model := build_noise_model in
  Some (mkAer (Some noise_model)).

(** Sign test: [x + y sqrt 2 > 0]. *)
Definition D_pos (x y : Q) : bool :=
  let xpos := negb (Qle_bool x 0) in
  let ypos := negb (Qle_bool y 0) in
  let xnn := Qle_bool 0 x in
  let ynn := Qle_bool 0 y in
  if xnn && ynn then xpos || ypos
  else if xnn then negb (Qle_bool (x * x) (2 * (y * y)))
  else if ynn then negb (Qle_bool (2 * (y * y)) (x * x))
  else false.

(** A shot with uniform draw [u] in [0,1) reads "0" when [u < p0]. *)
Definition shot (p0 : D) (u : Q) : string :=
  if D_pos (dq p0 - u) (dr p0) then "0" else "1".

Definition count_outcome (key : string) (outs : list string) : nat :=
  List.length (filter (String.eqb key) outs).

(** [get_counts()] lists only the observed outcomes. *)
Definition counts_of (outs : list string) : Counts :=
  filter (fun kv => negb (Nat.eqb (snd kv) 0))
    [("0", count_outcome "0" outs); ("1", count_outcome "1" outs)].

(** [backend.run(qc, shots=length draws).result().get_counts()] for a
    one-clbit circuit, one uniform draw per shot.  Only the noise-free
    simulator is modelled. *)
Definition execute (backend : AerSimulator) (qc : QuantumCircuit) (draws : list Q)
  : option Counts :=
  match sim_noise_model backend with
  | Some _ => None
  | None =>
      let* p0 := measure_prob D_ops qc false in
      Some (counts_of (map (shot p0) draws))
  end.

(** Step 7, [demonstrate_error_correction()], its 1000 shots drawn from
    [draws]; [transpile] is left out: it does not change the outcome
    distribution. *)
Definition demonstrate_error_correction (draws : list Q) : option Counts :=
  let* qc := demonstrate_circuit in
  let backend := demonstrate_backend in
  execute backend qc draws.

Definition is_barrier (g : instr) : bool :=
  match g with IBarrier _ => true | _ => false end.

Definition count_barriers (qc : QuantumCircuit) : nat :=
  List.length (filter is_barrier (data qc)).

(* ------------------------------------------------------------------ *)
(** * Simulation of every gate the program uses (complex amplitudes) *)

Definition cmul (u v : Cplx) : Cplx :=
  (fst u * fst v - snd u * snd v, fst u * snd v + snd u * fst v)%R.

Definition cadd (u v : Cplx) : Cplx := a_add C_ops u v.

(** e^(i phi) *)
Definition cexp_i (phi : R) : Cplx := (cos phi, sin phi).

Definition c_i : Cplx := (0%R, 1%R).
Definition c_minus_i : Cplx := (0%R, (-1)%R).

Definition rscale (r : R) (u : Cplx) : Cplx := (r * fst u, r * snd u)%R.

(** The basis index with the bits of qubits [a] and [b] exchanged. *)
Definition swap_index (a b : nat) (i : N) : N :=
  if Bool.eqb (bit a i) (bit b i) then i else flip a (flip b i).

(** The unitary of every instruction of the program, with qiskit's
    matrices: Y = [[0,-i],[i,0]], S = diag(1,i), T = diag(1,e^(i pi/4)),
    RX(th) = [[c,-is],[-is,c]], RY(th) = [[c,-s],[s,c]],
    RZ(th) = diag(e^(-i th/2), e^(i th/2)) with c = cos(th/2),
    s = sin(th/2), CZ = diag(1,1,1,-1); H, X, Z, CX and barriers as in
    [apply_gate].  A measurement yields [None]. *)
Definition apply_gate_full (g : instr) (psi : state) : option state :=
  match g with
  | IY q => Some (fun i =>
      if bit q i then cmul c_i (psi (flip q i)) else cmul c_minus_i (psi (flip q i)))
  | IS q => Some (fun i => if bit q i then cmul c_i (psi i) else psi i)
  | ISdg q => Some (fun i => if bit q i then cmul c_minus_i (psi i) else psi i)
  | IT q => Some (fun i => if bit q i then cmul (cexp_i (PI / 4)) (psi i) else psi i)
  | ITdg q => Some (fun i => if bit q i then cmul (cexp_i (- (PI / 4))) (psi i) else psi i)
  | IRX th q => Some (fun i =>
      let c := cos (Q2R th / 2) in let s := sin (Q2R th / 2) in
      cadd (rscale c (psi i)) (cmul (0%R, (- s)%R) (psi (flip q i))))
  | IRY th q => Some (fun i =>
      let c := cos (Q2R th / 2) in let s := sin (Q2R th / 2) in
      if bit q i then cadd (rscale s (psi (flip q i))) (rscale c (psi i))
      else cadd (rscale c (psi i)) (rscale (- s) (psi (flip q i))))
  | IRZ th q => Some (fun i =>
      if bit q i then cmul (cexp_i (Q2R th / 2)) (psi i)
      else cmul (cexp_i (- (Q2R th / 2))) (psi i))
  | ICZ a b => Some (fun i => if bit a i && bit b i then a_opp C_ops (psi i) else psi i)
  | ISwap a b => Some (fun i => psi (swap_index a b i))
  | g => apply_gate C_ops g psi
  end.

Fixpoint run_full (l : list instr) (psi : state) : option state :=
  match l with
  | [] => Some psi
  | IMeasure _ _ :: _ => None
  | g :: l' => let* psi' := apply_gate_full g psi in run_full l' psi'
  end.

(** [measure_prob] with every gate simulated. *)
Definition measure_prob_full (qc : QuantumCircuit) (b : bool) : option Cplx :=
  match rev (data qc) with
  | IMeasure q 0 :: rest =>
      let* psi := run_full (rev rest) (zero_state C_ops) in
      Some (prob_bit C_ops (num_qubits qc) q b psi)
  | _ => None
  end.

(** The circuit without error correction built in [run_comparison]. *)
Definition qc_no_ec : option QuantumCircuit :=
  let qc := new_circuit 1 1 in
  let* qc := h 0 qc in
  let* qc := rx (1#2) 0 qc in
  let* qc := ry (3#10) 0 qc in
  let* qc := rz (7#10) 0 qc in
  let* qc := measure 0 0 qc in
  Some qc.

(** Sum of the frequencies of a counts dict. *)
Definition counts_total (counts : Counts) : nat :=
  fold_right Nat.add 0%nat (map snd counts).

(** The state with every amplitude negated (global phase -1). *)
Definition neg_state (psi : state) : state := fun i => a_opp C_ops (psi i).

(** Every amplitude with qubit 0 set is zero: measuring qubit 0 reads 0. *)
Definition supp0 (psi : state) : Prop :=
  forall i, bit 0 i = true -> psi i = (0%R, 0%R).

(** Instructions that leave qubit 0 alone, except as a CX control. *)
Definition avoids0 (g : instr) : bool :=
  match g with
  | IMeasure _ _ => false
  | ICX _ tg => negb (Nat.eqb tg 0)
  | IBarrier _ => true
  | _ => forallb (fun q => negb (Nat.eqb q 0)) (instr_qubits g)
  end.

(* ------------------------------------------------------------------ *)
(** * Lemmas on basis indices *)

Lemma bit_flip_same (q : nat) (i : N) : bit q (flip q i) = negb (bit q i).
Proof.
  unfold bit, flip. rewrite N.lxor_spec, N.pow2_bits_true.
  destruct (N.testbit i (N.of_nat q)); reflexivity.
Qed.

Lemma bit_flip_other (c q : nat) (i : N) : c <> q -> bit c (flip q i) = bit c i.
Proof.
  intros Hne. unfold bit, flip. rewrite N.lxor_spec, N.pow2_bits_false by lia.
  destruct (N.testbit i (N.of_nat c)); reflexivity.
Qed.

Lemma flip_flip (q : nat) (i : N) : flip q (flip q i) = i.
Proof.
  unfold flip. rewrite N.lxor_assoc, N.lxor_nilpotent, N.lxor_0_r.
  reflexivity.
Qed.

(* ------------------------------------------------------------------ *)
(** * Running instruction lists *)

Lemma run_app {A} (ops : AmpOps A) (l1 l2 : list instr) (psi : state) :
  run ops (l1 ++ l2) psi = (let* psi' := run ops l1 psi in run ops l2 psi').
Proof.
  revert psi. induction l1 as [|g l1 IH]; intros psi; [reflexivity|].
  destruct g; simpl; try reflexivity; apply IH.
Qed.

Lemma run_cons_gate {A} (ops : AmpOps A) (g : instr) (l : list instr) (psi : state) :
  run ops (g :: l) psi = (let* psi' := apply_gate ops g psi in run ops l psi').
Proof.
  destruct g; reflexivity.
Qed.

(** Gates that are their own inverse in the simulator. *)
Definition self_inverse (g : instr) : bool :=
  match g with
  | IH _ | IX _ | IZ _ | IBarrier _ => true
  | ICX c tg => negb (Nat.eqb c tg)
  | _ => false
  end.

Lemma sqrt2_sq : (sqrt 2 * sqrt 2 = 2)%R.
Proof. apply sqrt_sqrt. lra. Qed.

Lemma sqrt2_neq0 : (sqrt 2 <> 0)%R.
Proof. intros E. pose proof sqrt2_sq as H. rewrite E in H. lra. Qed.

Lemma hmul_twice (a : R) : ((a + a) / sqrt 2 / sqrt 2 = a)%R.
Proof.
  unfold Rdiv. rewrite Rmult_assoc, <- Rinv_mult, sqrt2_sq. field.
Qed.

Lemma hadamard_sum (a b : R) : (((a + b) / sqrt 2 + (a - b) / sqrt 2) / sqrt 2 = a)%R.
Proof.
  rewrite <- (hmul_twice a) at 3. f_equal. field. exact sqrt2_neq0.
Qed.

Lemma hadamard_diff (a b : R) : (((b + a) / sqrt 2 - (b - a) / sqrt 2) / sqrt 2 = a)%R.
Proof.
  rewrite <- (hmul_twice a) at 3. f_equal. field. exact sqrt2_neq0.
Qed.

Lemma apply_gate_involutive (g : instr) (psi : state) :
  self_inverse g = true ->
  exists psi', apply_gate C_ops g psi = Some psi' /\ apply_gate C_ops g psi' = Some psi.
Proof.
  intros Hg. destruct g; try discriminate Hg; simpl; eexists; split; try reflexivity;
    f_equal; extensionality i.
  - (* H *)
    rewrite bit_flip_same, flip_flip.
    destruct (bit q i) eqn:Bi; simpl;
      destruct (psi i) as [a1 a2], (psi (flip q i)) as [b1 b2]; simpl.
    + f_equal; apply hadamard_diff.
    + f_equal; apply hadamard_sum.
  - (* X *) now rewrite flip_flip.
  - (* Z *)
    destruct (bit q i); [|reflexivity].
    destruct (psi i); simpl; f_equal; apply Ropp_involutive.
  - (* CX *)
    apply Bool.negb_true_iff, Nat.eqb_neq in Hg.
    destruct (bit c i) eqn:Bc; [|reflexivity].
    rewrite bit_flip_other, Bc, flip_flip by exact Hg. reflexivity.
Qed.

(** A list of self-inverse gates followed by its reverse is the identity. *)
Lemma run_mirror (l : list instr) (psi : state) :
  forallb self_inverse l = true ->
  run C_ops (l ++ rev l) psi = Some psi.
Proof.
  revert psi. induction l as [|g l IH]; intros psi Hl; [reflexivity|].
  simpl in Hl. apply andb_prop in Hl as [Hg Hl].
  destruct (apply_gate_involutive g psi Hg) as [psi' [E1 E2]].
  simpl rev. rewrite app_assoc, run_app.
  replace ((g :: l) ++ rev l) with (g :: (l ++ rev l)) by reflexivity.
  rewrite run_cons_gate, E1, IH by exact Hl.
  cbv beta iota. rewrite run_cons_gate, E2.
  reflexivity.
Qed.

Lemma prob_bit_opp (n q : nat) (b : bool) (psi : state) :
  prob_bit C_ops n q b (fun i => a_opp C_ops (psi i)) = prob_bit C_ops n q b psi.
Proof.
  unfold prob_bit. f_equal. extensionality i.
  destruct (Bool.eqb (bit q i) b); [|reflexivity].
  destruct (psi i) as [a1 a2]; simpl. f_equal. ring.
Qed.

(* ------------------------------------------------------------------ *)
(** * Helper facts on the concrete circuits *)

Lemma fault_circuit_4 : fault_circuit 4 = demonstrate_circuit.
Proof. reflexivity. Qed.

(** In the noise-free simulation of the demonstration circuit, clbit 0
    reads 0 with probability exactly 0. *)
Lemma demonstrate_p0 :
  (let* c := demonstrate_circuit in measure_prob D_ops c false) = Some (Dmk 0 0).
Proof. vm_compute. reflexivity. Qed.

Lemma shot_zero (u : Q) : 0 <= u -> shot (Dmk 0 0) u = "1".
Proof.
  destruct u as [n d]. unfold Qle; simpl. intros Hu.
  unfold shot, D_pos, Qle_bool; simpl.
  destruct (Z.leb_spec 0 (- n * 1 * 1)); simpl.
  - replace (- n * 1 * 1 <=? 0)%Z with true by (symmetry; apply Z.leb_le; lia).
    reflexivity.
  - replace (0 <=? - n * 1 * (- n * 1) * 1)%Z with true by (symmetry; apply Z.leb_le; nia).
    reflexivity.
Qed.

Lemma count_outcome_cons (key o : string) (outs : list string) :
  count_outcome key (o :: outs)
  = ((if String.eqb key o then 1 else 0) + count_outcome key outs)%nat.
Proof. unfold count_outcome. simpl. destruct (String.eqb key o); reflexivity. Qed.

Lemma count_outcome_all_one (key : string) (l : list Q) :
  Forall (fun u => 0 <= u) l ->
  count_outcome key (map (shot (Dmk 0 0)) l)
  = if String.eqb key "1" then List.length l else 0%nat.
Proof.
  induction l as [|u l IH]; intros Hl.
  - destruct (String.eqb key "1"); reflexivity.
  - inversion Hl as [|? ? Hu Hl']; subst.
    simpl map. rewrite count_outcome_cons, (shot_zero u Hu), (IH Hl').
    destruct (String.eqb key "1"); reflexivity.
Qed.

Lemma lookup_error_absent (nm : NoiseModel) (g : string) :
  ~ In g (map fst nm) -> lookup_error nm g = None.
Proof.
  induction nm as [|[k e] nm IH]; intros Hg; [reflexivity|].
  simpl in *. destruct (String.eqb_spec k g) as [->|_]; [tauto|].
  apply IH. tauto.
Qed.

Lemma counts_get_absent (counts : Counts) (key : string) (d : nat) :
  ~ In key (map fst counts) -> counts_get counts key d = d.
Proof.
  induction counts as [|[k v] c IH]; intros Hk; [reflexivity|].
  simpl in *. destruct (String.eqb_spec k key) as [->|_]; [tauto|].
  apply IH. tauto.
Qed.

(** Provide the value a closed builder computes as the witness. *)
Ltac exists_computed t :=
  let v := eval vm_compute in t in
  match v with Some ?c => exists c end.

(* ------------------------------------------------------------------ *)
(** * Claims *)

(** C1: for every qubit k in 1..8, preparing |1>, encoding, flipping
    qubit k with X, decoding and measuring qubit 0 reads 1 with
    probability exactly 1 in the noise-free simulation. *)
Theorem single_fault_recovered (k : nat) :
  (1 <= k <= 8)%nat ->
  (let* c := fault_circuit k in measure_prob D_ops c true) = Some (Dmk 1 0).
Proof.
  intros Hk.
  do 9 (destruct k as [|k]; [try lia; vm_compute; reflexivity|]).
  lia.
Qed.

Lemma single_fault_recovered_witness :
  (1 <= 4 <= 8)%nat /\
  (let* c := fault_circuit 4 in measure_prob D_ops c true) = Some (Dmk 1 0).
Proof. split; [lia | apply single_fault_recovered; lia]. Defined.

(** C2: the encoder composed with its inverse is the identity on every
    9-qubit state (complex amplitudes), so encode-then-decode leaves every
    measurement distribution as it was. *)
Theorem encode_decode_roundtrip :
  exists enc dec c,
    shor_encode = Some enc /\ inverse enc = Some dec /\ compose enc dec = Some c /\
    forall psi : state, run C_ops (data c) psi = Some psi.
Proof.
  let L := constr:([ICX 0 3; ICX 0 6; IH 0; IH 3; IH 6; ICX 0 1; ICX 0 2;
                     ICX 3 4; ICX 3 5; ICX 6 7; ICX 6 8]) in
  exists (mkCircuit 9 0 L), (mkCircuit 9 0 (rev L)), (mkCircuit 9 0 (L ++ rev L));
  split; [vm_compute; reflexivity|];
  split; [vm_compute; reflexivity|];
  split; [vm_compute; reflexivity|];
  intros psi; exact (run_mirror L psi eq_refl).
Qed.

(** C3: [apply_error_correction] ignores its syndrome: every syndrome gives
    the same circuit, a barrier then X, Z, X, Z on qubit 0, whose action is
    the identity up to the global phase -1, so every measurement
    probability is unchanged. *)
Theorem error_correction_is_noop (syndrome syndrome' : string) :
  apply_error_correction syndrome = apply_error_correction syndrome' /\
  exists c,
    apply_error_correction syndrome = Some c /\
    data c = [IBarrier (seq 0 9); IX 0; IZ 0; IX 0; IZ 0] /\
    forall psi : state, exists psi',
      run C_ops (data c) psi = Some psi' /\
      (forall i, psi' i = a_opp C_ops (psi i)) /\
      (forall n q b, prob_bit C_ops n q b psi' = prob_bit C_ops n q b psi).
Proof.
  split; [reflexivity|].
  eexists. split; [reflexivity|]. split; [reflexivity|].
  intros psi. eexists. split; [reflexivity|].
  assert (Hopp : forall i,
    (if bit 0 i then a_opp C_ops
       (if bit 0 (flip 0 i) then a_opp C_ops (psi (flip 0 (flip 0 i)))
        else psi (flip 0 (flip 0 i)))
     else if bit 0 (flip 0 i) then a_opp C_ops (psi (flip 0 (flip 0 i)))
          else psi (flip 0 (flip 0 i))) = a_opp C_ops (psi i)).
  { intros i. rewrite bit_flip_same, flip_flip.
    destruct (bit 0 i); reflexivity. }
  split; [exact Hopp|].
  intros n q b. rewrite <- (prob_bit_opp n q b psi). f_equal.
  extensionality i. apply Hopp.
Qed.

(** C4: [shor_qec_circuit] is, in this order, H on qubit 0, the
    logical-operations fragment, the encoder, a barrier, the correction
    fragment, the inverse of the encoder, and last a measurement of qubit 0
    into clbit 0. *)
Theorem qec_circuit_order :
  exists ops enc corr dec c,
    apply_quantum_operations = Some ops /\ shor_encode = Some enc /\
    apply_error_correction "000000" = Some corr /\ inverse enc = Some dec /\
    shor_qec_circuit = Some c /\
    data c = [IH 0] ++ data ops ++ data enc ++ [IBarrier (seq 0 9)]
             ++ data corr ++ data dec ++ [IMeasure 0 0].
Proof.
  exists_computed apply_quantum_operations. exists_computed shor_encode.
  exists_computed (apply_error_correction "000000").
  exists_computed (let* enc := shor_encode in inverse enc).
  exists_computed shor_qec_circuit.
  repeat split; vm_compute; reflexivity.
Qed.

(** C5: [shor_qec_circuit] has 9 qubits, 1 clbit and exactly 2 barriers. *)
Theorem qec_circuit_shape :
  exists c, shor_qec_circuit = Some c /\
    num_qubits c = 9%nat /\ num_clbits c = 1%nat /\ count_barriers c = 2%nat.
Proof.
  exists_computed shor_qec_circuit.
  repeat split; vm_compute; reflexivity.
Qed.

(** C6: the deviation statistic is |0.5 - p0| * 200 with p0 the count of
    "0" over 1000; it is 0 for {'0': 500, '1': 500} and 20 for
    {'0': 400, '1': 600}. *)
Theorem deviation_values :
  (forall counts : Counts,
     deviation counts = Qabs ((1 # 2) - (Z.of_nat (counts_get counts "0" 0) # 1000)) * 200) /\
  deviation [("0", 500%nat); ("1", 500%nat)] == 0 /\
  deviation [("0", 400%nat); ("1", 600%nat)] == 20.
Proof.
  split; [reflexivity|]. split; reflexivity.
Qed.

(** C7, counterexample: [build_noise_model] takes no parameter, so no call
    yields a model whose single-qubit depolarizing probability is a chosen
    p1 = 0.05. *)
Lemma noise_model_p1_not_settable :
  ~ exists nm, build_noise_model = Some nm /\
      lookup_error nm "h" = Some [(5 # 100, 1%nat)].
Proof.
  intros [nm [E H]]. vm_compute in E. injection E as <-.
  vm_compute in H. discriminate H.
Qed.

(** C7, amended: [build_noise_model] takes no argument; it fixes p1 = 0.01
    and p2 = 0.03 and returns a model with a one-qubit depolarizing error of
    probability p1 on every gate name of [single_qubit_gates], a two-qubit
    depolarizing error of probability p2 on every gate name of
    [two_qubit_gates], the same on every qubit, and no error on any other
    instruction name. *)
Theorem build_noise_model_fixed :
  exists nm, build_noise_model = Some nm /\
    (forall g, In g single_qubit_gates -> lookup_error nm g = Some [(1 # 100, 1%nat)]) /\
    (forall g, In g two_qubit_gates -> lookup_error nm g = Some [(3 # 100, 2%nat)]) /\
    (forall g, ~ In g single_qubit_gates -> ~ In g two_qubit_gates -> lookup_error nm g = None).
Proof.
  exists_computed build_noise_model.
  split; [vm_compute; reflexivity|].
  split; [|split].
  - intros g Hg. simpl in Hg.
    repeat match goal with H : _ \/ _ |- _ => destruct H as [<-|H]; [reflexivity|] end.
    contradiction.
  - intros g Hg. simpl in Hg.
    repeat match goal with H : _ \/ _ |- _ => destruct H as [<-|H]; [reflexivity|] end.
    contradiction.
  - intros g H1 H2. apply lookup_error_absent.
    simpl in *. tauto.
Qed.

(** C8, counterexample: [build_noise_model] takes no parameter, so
    supplying the probability 1.2, outside [0, 1], raises [TypeError] from
    the call itself, not a range-validation error of the provider. *)
Lemma noise_model_argument_rejected :
  ~ (6 # 5 <= 1) /\
  call_build_noise_model [6 # 5] = inl "TypeError" /\
  call_build_noise_model [6 # 5] <> inl "InvalidNoiseParameterError".
Proof.
  split; [intros H; apply Qle_bool_iff in H; discriminate H|].
  split; [reflexivity | discriminate].
Qed.

(** C8, amended: [build_noise_model] takes no parameter and does no range
    validation: a call that supplies any argument raises [TypeError] before a
    model is built, no call raises anything else, and the call without
    arguments always returns the model built from the fixed probabilities
    0.01 and 0.03, both in [0, 1]. *)
Theorem build_noise_model_no_validation :
  (forall args : list Q, args <> [] -> call_build_noise_model args = inl "TypeError") /\
  (forall (args : list Q) (e : string), call_build_noise_model args = inl e -> e = "TypeError") /\
  (exists nm, call_build_noise_model [] = inr nm /\ build_noise_model = Some nm /\
     (forall g, In g single_qubit_gates -> lookup_error nm g = Some [(1 # 100, 1%nat)]) /\
     (forall g, In g two_qubit_gates -> lookup_error nm g = Some [(3 # 100, 2%nat)])) /\
  0 <= 1 # 100 <= 1 /\ 0 <= 3 # 100 <= 1.
Proof.
  split.
  { intros [|p args] H; [contradiction|reflexivity]. }
  split.
  { intros [|p args] e H.
    - vm_compute in H. discriminate H.
    - injection H as <-. reflexivity. }
  split.
  { exists_computed build_noise_model.
    split; [vm_compute; reflexivity|].
    split; [vm_compute; reflexivity|].
    split.
    - intros g Hg. simpl in Hg.
      repeat match goal with H : _ \/ _ |- _ => destruct H as [<-|H]; [reflexivity|] end.
      contradiction.
    - intros g Hg. simpl in Hg.
      repeat match goal with H : _ \/ _ |- _ => destruct H as [<-|H]; [reflexivity|] end.
      contradiction. }
  split; split; apply Qle_bool_iff; reflexivity.
Qed.

(** C9: [demonstrate_error_correction] runs on a simulator with no noise
    model (while [run_comparison]'s simulator carries [build_noise_model]),
    and for any 1000 uniform draws in [0, 1) every shot reads "1". *)
Theorem demonstrate_all_ones (draws : list Q) :
  List.length draws = 1000%nat ->
  Forall (fun u => 0 <= u /\ u < 1) draws ->
  sim_noise_model demonstrate_backend = None /\
  (exists b nm, comparison_backend = Some b /\ build_noise_model = Some nm /\
                sim_noise_model b = Some nm) /\
  demonstrate_error_correction draws = Some [("1", 1000%nat)].
Proof.
  intros Hlen Hdraws.
  assert (Hnn : Forall (fun u => 0 <= u) draws)
    by (eapply Forall_impl; [|exact Hdraws]; intros u [Hu _]; exact Hu).
  split; [reflexivity|].
  split.
  { exists_computed comparison_backend. exists_computed build_noise_model.
    repeat split; vm_compute; reflexivity. }
  pose proof demonstrate_p0 as Hp. revert Hp.
  unfold demonstrate_error_correction.
  destruct demonstrate_circuit as [c|]; simpl; [|discriminate].
  intros Hp. unfold execute. simpl. rewrite Hp.
  unfold counts_of. rewrite !count_outcome_all_one by exact Hnn.
  rewrite Hlen. reflexivity.
Qed.

Lemma demonstrate_all_ones_witness :
  List.length (repeat 0 1000) = 1000%nat /\
  Forall (fun u => 0 <= u /\ u < 1) (repeat 0 1000) /\
  (sim_noise_model demonstrate_backend = None /\
   (exists b nm, comparison_backend = Some b /\ build_noise_model = Some nm /\
                 sim_noise_model b = Some nm) /\
   demonstrate_error_correction (repeat 0 1000) = Some [("1", 1000%nat)]).
Proof.
  assert (Hl : List.length (repeat 0 1000) = 1000%nat) by apply repeat_length.
  assert (Hf : Forall (fun u => 0 <= u /\ u < 1) (repeat 0 1000)).
  { apply Forall_forall. intros u Hu. apply repeat_spec in Hu. subst u.
    split; apply Qle_bool_iff || (unfold Qlt; simpl; lia); reflexivity. }
  split; [exact Hl|]. split; [exact Hf|].
  apply demonstrate_all_ones; [exact Hl | exact Hf].
Defined.

(** C10: a bitstring absent from the counts gets probability 0, and
    p0 + p1 is the count of "0" plus the count of "1", over 1000. *)
Theorem prob_absent_and_sum (counts : Counts) :
  (forall key, ~ In key (map fst counts) -> prob_of counts key == 0) /\
  prob_of counts "0" + prob_of counts "1"
  == Z.of_nat (counts_get counts "0" 0 + counts_get counts "1" 0) # 1000.
Proof.
  split.
  - intros key Hk. unfold prob_of. rewrite counts_get_absent by exact Hk.
    reflexivity.
  - unfold prob_of, Qplus, Qeq. simpl. rewrite Nat2Z.inj_add. lia.
Qed.

(* ------------------------------------------------------------------ *)
(** * Further properties: helper lemmas *)

Lemma run_full_cons (g : instr) (l : list instr) (psi : state) :
  run_full (g :: l) psi = (let* psi' := apply_gate_full g psi in run_full l psi').
Proof. destruct g; reflexivity. Qed.

Lemma run_full_app (l1 l2 : list instr) (psi : state) :
  run_full (l1 ++ l2) psi = (let* psi' := run_full l1 psi in run_full l2 psi').
Proof.
  revert psi. induction l1 as [|g l1 IH]; intros psi; [reflexivity|].
  simpl app. rewrite !run_full_cons.
  destruct (apply_gate_full g psi); [apply IH | reflexivity].
Qed.

Lemma run_full_self_inverse (l : list instr) (psi : state) :
  forallb self_inverse l = true -> run_full l psi = run C_ops l psi.
Proof.
  revert psi. induction l as [|g l IH]; intros psi Hl; [reflexivity|].
  simpl in Hl. apply andb_prop in Hl as [Hg Hl].
  rewrite run_full_cons, run_cons_gate.
  assert (E : apply_gate_full g psi = apply_gate C_ops g psi)
    by (destruct g; try discriminate Hg; reflexivity).
  rewrite E. destruct (apply_gate C_ops g psi); [apply IH, Hl | reflexivity].
Qed.

Lemma forallb_rev {T} (f : T -> bool) (l : list T) :
  forallb f (rev l) = forallb f l.
Proof.
  induction l as [|a l IH]; [reflexivity|].
  simpl. rewrite forallb_app, IH. simpl.
  destruct (f a), (forallb f l); reflexivity.
Qed.

Lemma apply_gate_neg (g : instr) (psi : state) :
  self_inverse g = true ->
  apply_gate C_ops g (neg_state psi) = option_map neg_state (apply_gate C_ops g psi).
Proof.
  intros Hg. destruct g; try discriminate Hg; simpl; f_equal;
    extensionality i; unfold neg_state;
    repeat match goal with |- context [if ?b then _ else _] => destruct b end;
    simpl; f_equal; unfold Rdiv; ring.
Qed.

Lemma run_neg (l : list instr) (psi : state) :
  forallb self_inverse l = true ->
  run C_ops l (neg_state psi) = option_map neg_state (run C_ops l psi).
Proof.
  revert psi. induction l as [|g l IH]; intros psi Hl; [reflexivity|].
  simpl in Hl. apply andb_prop in Hl as [Hg Hl].
  rewrite !run_cons_gate, (apply_gate_neg g psi Hg).
  destruct (apply_gate C_ops g psi); simpl; [apply IH, Hl | reflexivity].
Qed.

(** A self-inverse list, a fragment acting as -I, then the reversed list:
    the whole acts as -I. *)
Lemma run_sandwich_neg (l mid : list instr) (psi : state) :
  forallb self_inverse l = true ->
  (forall phi, run C_ops mid phi = Some (neg_state phi)) ->
  run C_ops (l ++ mid ++ rev l) psi = Some (neg_state psi).
Proof.
  intros Hl Hmid.
  pose proof (run_mirror l psi Hl) as Hm. rewrite run_app in Hm.
  destruct (run C_ops l psi) as [psi1|] eqn:E1; [|discriminate Hm].
  rewrite run_app, E1. cbv beta iota.
  rewrite run_app, Hmid. cbv beta iota.
  rewrite run_neg, Hm by (rewrite forallb_rev; exact Hl). reflexivity.
Qed.

Lemma run_xzxz (phi : state) :
  run C_ops [IX 0; IZ 0; IX 0; IZ 0] phi = Some (neg_state phi).
Proof.
  simpl. f_equal. extensionality i. unfold neg_state.
  rewrite bit_flip_same, flip_flip. destruct (bit 0 i); reflexivity.
Qed.

Lemma zero_state_supp0 : supp0 (zero_state C_ops).
Proof.
  intros i Hi. unfold zero_state. destruct (N.eqb_spec i 0) as [->|_].
  - cbv in Hi. discriminate Hi.
  - reflexivity.
Qed.

Lemma neg_supp0 (psi : state) : supp0 psi -> supp0 (neg_state psi).
Proof.
  intros Hs i Hi. unfold neg_state. rewrite (Hs i Hi). simpl. f_equal; apply Ropp_0.
Qed.

Lemma bit0_flip (q : nat) (i : N) : q <> 0%nat -> bit 0 (flip q i) = bit 0 i.
Proof. intros Hq. apply bit_flip_other. lia. Qed.

Lemma bit0_swap (a b : nat) (i : N) :
  a <> 0%nat -> b <> 0%nat -> bit 0 (swap_index a b i) = bit 0 i.
Proof.
  intros Ha Hb. unfold swap_index. destruct (Bool.eqb (bit a i) (bit b i)); [reflexivity|].
  rewrite !bit0_flip by assumption. reflexivity.
Qed.

Lemma apply_full_supp0 (g : instr) (psi : state) :
  avoids0 g = true -> supp0 psi ->
  exists psi', apply_gate_full g psi = Some psi' /\ supp0 psi'.
Proof.
  intros Hg Hs. destruct g; simpl in Hg; try discriminate Hg;
    repeat match goal with
    | H : _ && _ = true |- _ => apply andb_prop in H as [? ?]
    | H : negb (Nat.eqb _ _) = true |- _ => apply Bool.negb_true_iff, Nat.eqb_neq in H
    end;
    eexists; split; try reflexivity; intros i Hi; simpl;
    repeat match goal with
    | |- context [psi ?j] =>
        rewrite (Hs j) by first [ exact Hi
                                | rewrite bit0_flip by assumption; exact Hi
                                | rewrite bit0_swap by assumption; exact Hi ]
    end;
    repeat match goal with |- context [if ?b then _ else _] => destruct b end;
    unfold cmul, cadd, rscale; simpl; f_equal; unfold Rdiv; ring.
Qed.

Lemma run_full_supp0 (l : list instr) (psi : state) :
  forallb avoids0 l = true -> supp0 psi ->
  exists psi', run_full l psi = Some psi' /\ supp0 psi'.
Proof.
  revert psi. induction l as [|g l IH]; intros psi Hl Hs;
    [exists psi; split; [reflexivity | exact Hs]|].
  simpl in Hl. apply andb_prop in Hl as [Hg Hl].
  destruct (apply_full_supp0 g psi Hg Hs) as [psi1 [E1 S1]].
  rewrite run_full_cons, E1. exact (IH psi1 Hl S1).
Qed.

Lemma sum_upto_zero (n : nat) (f : N -> Cplx) :
  (forall i, f i = (0%R, 0%R)) -> sum_upto C_ops n f = (0%R, 0%R).
Proof.
  intros Hf. induction n as [|n IH]; [reflexivity|].
  simpl. rewrite IH, Hf. simpl. f_equal; ring.
Qed.

Lemma prob_bit_supp0 (n : nat) (psi : state) :
  supp0 psi -> prob_bit C_ops n 0 true psi = (0%R, 0%R).
Proof.
  intros Hs. unfold prob_bit. apply sum_upto_zero. intros i.
  destruct (bit 0 i) eqn:Bi; simpl; [|reflexivity].
  rewrite (Hs i Bi). simpl. f_equal; ring.
Qed.

Lemma measure_prob_full_last (n m q : nat) (l : list instr) (b : bool) :
  measure_prob_full (mkCircuit n m (l ++ [IMeasure q 0])) b =
  (let* psi := run_full l (zero_state C_ops) in Some (prob_bit C_ops n q b psi)).
Proof.
  unfold measure_prob_full. simpl data. rewrite rev_unit.
  cbv beta iota. rewrite rev_involutive. reflexivity.
Qed.

Lemma inverse_instr_involutive (g g' : instr) :
  inverse_instr g = Some g' -> inverse_instr g' = Some g.
Proof.
  destruct g; simpl; intros E; try discriminate E; injection E as <-; simpl;
    try reflexivity;
    destruct theta as [n d]; unfold Qopp; simpl; rewrite Z.opp_involutive; reflexivity.
Qed.

Lemma inverse_data_app (l1 l2 : list instr) :
  inverse_data (l1 ++ l2) =
  (let* a := inverse_data l1 in let* b := inverse_data l2 in Some (b ++ a)).
Proof.
  induction l1 as [|g l1 IH].
  - simpl. destruct (inverse_data l2); [rewrite app_nil_r|]; reflexivity.
  - simpl. rewrite IH.
    destruct (inverse_instr g), (inverse_data l1), (inverse_data l2); simpl;
      try reflexivity.
    rewrite app_assoc. reflexivity.
Qed.

Lemma counts_total_filter (l : Counts) :
  counts_total (filter (fun kv => negb (Nat.eqb (snd kv) 0)) l) = counts_total l.
Proof.
  unfold counts_total.
  induction l as [|[k v] l IH]; [reflexivity|].
  simpl. destruct (Nat.eqb_spec v 0) as [->|Hv]; simpl; lia.
Qed.

Lemma shots_split (p0 : D) (draws : list Q) :
  (count_outcome "0" (map (shot p0) draws) + count_outcome "1" (map (shot p0) draws))%nat
  = List.length draws.
Proof.
  induction draws as [|u draws IH]; [reflexivity|].
  simpl map. rewrite !count_outcome_cons. unfold shot at 1 3.
  destruct (D_pos (dq p0 - u) (dr p0)); simpl; lia.
Qed.

(* ------------------------------------------------------------------ *)
(** * Further properties of the code *)

(** X1 (run_comparison, the circuit without error correction): in the
    noise-free simulation the probability of reading 0 is
    (1 - sin 0.3) / 2, below one half; the RX and RZ rotations only add
    phases, the RY rotation by 0.3 after H tilts the state towards 1. *)
Theorem no_ec_ideal_p0 :
  exists c p, qc_no_ec = Some c /\ measure_prob_full c false = Some p /\
    fst p = ((1 - sin (Q2R (3 # 10))) / 2)%R /\ (fst p < 1 / 2)%R.
Proof.
  exists_computed qc_no_ec.
  eexists. split; [reflexivity|]. split.
  { unfold measure_prob_full. cbn -[Q2R cos sin sqrt PI Rmult Rplus Rminus Ropp Rdiv Rinv].
    reflexivity. }
  cbn -[Q2R cos sin sqrt PI Rmult Rplus Rminus Ropp Rdiv Rinv].
  assert (Hs : (0 < sin (Q2R (3 # 10)))%R).
  { assert (Hq : Q2R (3 # 10) = (3 / 10)%R) by (unfold Q2R; simpl; field).
    rewrite Hq. apply sin_gt_0; [lra|]. pose proof PI2_3_2. lra. }
  assert (Hp : forall r : R,
    r = ((1 - sin (Q2R (3 # 10))) / 2)%R -> r = ((1 - sin (Q2R (3 # 10))) / 2)%R /\ (r < 1 / 2)%R).
  { intros r ->. split; [reflexivity | lra]. }
  apply Hp. clear Hp Hs.
  set (x2 := (Q2R (3 # 10) / 2)%R).
  replace (Q2R (3 # 10)) with (2 * x2)%R by (unfold x2; field).
  rewrite sin_2a.
  set (x1 := (Q2R (1 # 2) / 2)%R). set (x3 := (Q2R (7 # 10) / 2)%R).
  pose proof (sin2_cos2 x1) as E1. pose proof (sin2_cos2 x2) as E2.
  pose proof (sin2_cos2 (- x3)) as E3.
  set (c1 := cos x1) in *. set (s1 := sin x1) in *.
  set (c2 := cos x2) in *. set (s2 := sin x2) in *.
  set (c3 := cos (- x3)) in *. set (s3 := sin (- x3)) in *.
  unfold Rdiv.
  assert (Hk : (/ sqrt 2 * / sqrt 2 = / 2)%R).
  { rewrite <- Rinv_mult, sqrt2_sq. reflexivity. }
  set (k := (/ sqrt 2)%R) in *.
  transitivity ((c2 - s2) ^ 2 * (s1 ^ 2 + c1 ^ 2) * (s3 ^ 2 + c3 ^ 2) * (k * k))%R.
  { unfold Rsqr in *. ring. }
  unfold Rsqr in *. rewrite Hk.
  replace (s1 ^ 2 + c1 ^ 2)%R with 1%R by (rewrite <- E1; ring).
  replace (s3 ^ 2 + c3 ^ 2)%R with 1%R by (rewrite <- E3; ring).
  replace 1%R with (s2 * s2 + c2 * c2)%R at 3 by exact E2.
  field.
Qed.

(** X2 (shor_qec_circuit): in the noise-free simulation, with every gate of
    apply_quantum_operations simulated, the full circuit never reads 1:
    the two H gates on qubit 0 cancel, the other operations leave the
    amplitudes with qubit 0 set at zero, and encoding, the correction and
    decoding together only negate the state. *)
Theorem qec_circuit_never_reads_one :
  exists c, shor_qec_circuit = Some c /\ measure_prob_full c true = Some (0%R, 0%R).
Proof.
  pose (rest := [IRX (1#2) 1; IRY (3#10) 2; IRZ (7#10) 3; IS 4; ISdg 5; IT 6;
                 ITdg 7; IX 8; ICX 0 4; ICZ 1 5; ISwap 2 6]).
  pose (enc := [ICX 0 3; ICX 0 6; IH 0; IH 3; IH 6; ICX 0 1; ICX 0 2;
                ICX 3 4; ICX 3 5; ICX 6 7; ICX 6 8]).
  pose (mid := [IBarrier (seq 0 9); IBarrier (seq 0 9); IX 0; IZ 0; IX 0; IZ 0]).
  exists (mkCircuit 9 1 (([IH 0; IH 0] ++ rest ++ (enc ++ mid ++ rev enc)) ++ [IMeasure 0 0])).
  split; [subst rest enc mid; vm_compute; reflexivity|].
  rewrite measure_prob_full_last, !run_full_app.
  rewrite (run_full_self_inverse [IH 0; IH 0]) by reflexivity.
  change [IH 0; IH 0] with ([IH 0] ++ rev [IH 0]).
  rewrite run_mirror by reflexivity. cbv beta iota.
  destruct (run_full_supp0 rest (zero_state C_ops) eq_refl zero_state_supp0) as [psi1 [E1 S1]].
  rewrite (run_full_app rest), E1. cbv beta iota.
  rewrite run_full_self_inverse by reflexivity.
  rewrite run_sandwich_neg by (reflexivity || (intros phi; exact (run_xzxz phi))).
  cbv beta iota. f_equal. apply prob_bit_supp0, neg_supp0, S1.
Qed.

(** X3 (shor_encode, apply_error_correction, the decoder of
    shor_qec_circuit): for every syndrome string, the encoder composed with
    the correction and the inverse encoder maps every 9-qubit state to its
    negation, a global phase. *)
Theorem encode_correct_decode_negates (syndrome : string) :
  exists enc corr dec c1 c2,
    shor_encode = Some enc /\ apply_error_correction syndrome = Some corr /\
    inverse enc = Some dec /\ compose enc corr = Some c1 /\ compose c1 dec = Some c2 /\
    forall psi, run_full (data c2) psi = Some (neg_state psi).
Proof.
  pose (encl := [ICX 0 3; ICX 0 6; IH 0; IH 3; IH 6; ICX 0 1; ICX 0 2;
                 ICX 3 4; ICX 3 5; ICX 6 7; ICX 6 8]).
  pose (corrl := [IBarrier (seq 0 9); IX 0; IZ 0; IX 0; IZ 0]).
  exists (mkCircuit 9 0 encl), (mkCircuit 9 0 corrl), (mkCircuit 9 0 (rev encl)),
    (mkCircuit 9 0 (encl ++ corrl)), (mkCircuit 9 0 ((encl ++ corrl) ++ rev encl)).
  subst encl corrl.
  split; [vm_compute; reflexivity|]. split; [vm_compute; reflexivity|].
  split; [vm_compute; reflexivity|]. split; [vm_compute; reflexivity|].
  split; [vm_compute; reflexivity|].
  intros psi. cbn [data]. rewrite <- app_assoc.
  rewrite run_full_self_inverse by reflexivity.
  apply run_sandwich_neg; [reflexivity|].
  intros phi. exact (run_xzxz phi).
Qed.

(** X4 (demonstrate_error_correction, its construction with the faulty
    qubit varied): a bit flip on any of the nine qubits, the logical qubit 0
    included, is undone: the circuit reads 1 with probability 1. *)
Theorem fault_any_qubit_recovered (k : nat) :
  (k < 9)%nat ->
  (let* c := fault_circuit k in measure_prob D_ops c true) = Some (Dmk 1 0).
Proof.
  intros Hk.
  do 9 (destruct k as [|k]; [vm_compute; reflexivity|]). lia.
Qed.

Lemma fault_any_qubit_recovered_witness :
  (0 < 9)%nat /\
  (let* c := fault_circuit 0 in measure_prob D_ops c true) = Some (Dmk 1 0).
Proof. split; [lia | apply (fault_any_qubit_recovered 0); lia]. Defined.

(** X5 (demonstrate_error_correction, [qc.x(4)] with the qubit varied):
    the construction fails, as qiskit raises on a qubit index outside the
    register, exactly when the faulty qubit is 9 or more. *)
Theorem fault_circuit_range (k : nat) : fault_circuit k = None <-> (9 <= k)%nat.
Proof.
  split.
  - intros H. destruct (Nat.le_gt_cases 9 k) as [Hk|Hk]; [exact Hk|].
    exfalso. do 9 (destruct k as [|k]; [vm_compute in H; discriminate H|]). lia.
  - intros Hk. replace k with (9 + (k - 9))%nat by lia.
    generalize (k - 9)%nat. intros j. vm_compute. reflexivity.
Qed.

(** X6 (QuantumCircuit.inverse, used for the decoders): inverting twice
    gives back the circuit. *)
Theorem inverse_roundtrip (qc qc' : QuantumCircuit) :
  inverse qc = Some qc' -> inverse qc' = Some qc.
Proof.
  destruct qc as [n m l]. unfold inverse. simpl.
  intros E. destruct (inverse_data l) as [l'|] eqn:El; [|discriminate E].
  injection E as <-. simpl.
  enough (H : forall l l', inverse_data l = Some l' -> inverse_data l' = Some l)
    by (rewrite (H l l' El); reflexivity).
  clear. induction l as [|g l IH]; intros l' E.
  - injection E as <-. reflexivity.
  - simpl in E. destruct (inverse_instr g) as [g'|] eqn:Eg; [|discriminate E].
    destruct (inverse_data l) as [r|] eqn:Er; [|discriminate E].
    injection E as <-.
    rewrite inverse_data_app, (IH r eq_refl). simpl.
    rewrite (inverse_instr_involutive g g' Eg). reflexivity.
Qed.

Lemma inverse_roundtrip_witness :
  exists qc', inverse (mkCircuit 1 1 [IH 0; IRX (1#2) 0]) = Some qc' /\
    inverse qc' = Some (mkCircuit 1 1 [IH 0; IRX (1#2) 0]).
Proof.
  eexists. split; [reflexivity|].
  apply (inverse_roundtrip (mkCircuit 1 1 [IH 0; IRX (1#2) 0])). reflexivity.
Defined.

(** X7 (QuantumCircuit.inverse): inversion fails exactly on circuits that
    contain a measurement; otherwise it keeps the number of instructions. *)
Theorem inverse_fails_iff_measure (qc : QuantumCircuit) :
  (inverse qc = None <-> exists q c, In (IMeasure q c) (data qc)) /\
  (forall qc', inverse qc = Some qc' -> List.length (data qc') = List.length (data qc)).
Proof.
  destruct qc as [n m l]. unfold inverse. simpl.
  assert (H : forall l, (inverse_data l = None <-> exists q c, In (IMeasure q c) l) /\
                        (forall l', inverse_data l = Some l' -> List.length l' = List.length l)).
  { clear. induction l as [|g l [IHn IHl]].
    - split; [split; [discriminate | intros (q & c & [])] |].
      intros l' E. injection E as <-. reflexivity.
    - simpl. split.
      + destruct (inverse_instr g) as [g'|] eqn:Eg.
        * destruct (inverse_data l) as [r|] eqn:Er; simpl.
          -- split; [discriminate|]. intros (q & c & [->|Hin]); [discriminate Eg|].
             assert (Hn : Some r = None) by (apply IHn; eauto).
             discriminate Hn.
          -- split; [intros _|reflexivity].
             destruct (proj1 IHn eq_refl) as (q & c & Hin). eauto.
        * split; [intros _|reflexivity].
          destruct g; try discriminate Eg. eauto.
      + intros l' E. destruct (inverse_instr g); [|discriminate E].
        destruct (inverse_data l) as [r|]; [|discriminate E].
        injection E as <-. rewrite length_app, (IHl r eq_refl). simpl. lia. }
  destruct (H l) as [Hn Hl]. split.
  - destruct (inverse_data l) eqn:E; simpl.
    + split; [discriminate|]. intros Hm. apply Hn in Hm. congruence.
    + split; [intros _; apply Hn; reflexivity | reflexivity].
  - intros qc' E. destruct (inverse_data l) as [l'|] eqn:El; [|discriminate E].
    injection E as <-. simpl. exact (Hl l' eq_refl).
Qed.

(** X8 (run_comparison, the deviation of line 154): for at most 1000 zeros
    among the 1000 shots, the deviation lies between 0 and 100 percent, and
    it is 0 exactly when 500 shots read 0. *)
Theorem deviation_bounds (counts : Counts) :
  (counts_get counts "0" 0 <= 1000)%nat ->
  0 <= deviation counts <= 100 /\
  (deviation counts == 0 <-> counts_get counts "0" 0 = 500%nat).
Proof.
  intros Hn. unfold deviation, prob_of.
  set (n := counts_get counts "0" 0) in *.
  assert (E : (Z.of_nat n # 1000) == inject_Z (Z.of_nat n) * (1 # 1000))
    by (unfold Qeq; simpl; lia).
  rewrite E.
  assert (Hz : 0 <= inject_Z (Z.of_nat n) <= 1000)
    by (split; unfold Qle; simpl; lia).
  assert (Hi : inject_Z (Z.of_nat n) == 500 <-> n = 500%nat).
  { change 500 with (inject_Z 500). rewrite inject_Z_injective. lia. }
  set (z := inject_Z (Z.of_nat n)) in *.
  destruct (Qlt_le_dec ((1 # 2) - z * (1 # 1000)) 0) as [Hneg|Hpos].
  - rewrite (Qabs_neg _ (Qlt_le_weak _ _ Hneg)).
    split; [split; Lqa.lra|].
    rewrite <- Hi. split; intros; Lqa.lra.
  - rewrite (Qabs_pos _ Hpos).
    split; [split; Lqa.lra|].
    rewrite <- Hi. split; intros; Lqa.lra.
Qed.

Lemma deviation_bounds_witness :
  (counts_get [("0", 500%nat); ("1", 500%nat)] "0" 0 <= 1000)%nat /\
  deviation [("0", 500%nat); ("1", 500%nat)] == 0.
Proof.
  split; [apply Nat.leb_le; reflexivity|].
  apply (deviation_bounds [("0", 500%nat); ("1", 500%nat)]);
    [apply Nat.leb_le; reflexivity | reflexivity].
Defined.

(** X9 (backend.run(...).get_counts() in demonstrate_error_correction and
    run_comparison, noise-free): the counts add up to the number of shots,
    and the only keys are 0 and 1. *)
Theorem execute_conserves_shots (backend : AerSimulator) (qc : QuantumCircuit)
  (draws : list Q) (counts : Counts) :
  execute backend qc draws = Some counts ->
  counts_total counts = List.length draws /\
  (forall k, In k (map fst counts) -> k = "0" \/ k = "1").
Proof.
  unfold execute. destruct (sim_noise_model backend); [discriminate|].
  destruct (measure_prob D_ops qc false) as [p0|]; [|discriminate].
  intros E. injection E as <-. split.
  - unfold counts_of. rewrite counts_total_filter.
    rewrite <- (shots_split p0 draws). unfold counts_total. simpl. lia.
  - intros k Hk. apply in_map_iff in Hk as [[k' v] [Hk Hin]]. simpl in Hk. subst k'.
    apply filter_In in Hin as [Hin _].
    destruct Hin as [E|[E|[]]]; injection E as <- _; auto.
Qed.

Lemma execute_conserves_shots_witness :
  execute demonstrate_backend (mkCircuit 1 1 [IMeasure 0 0]) [0; 1 # 2] = Some [("0", 2%nat)] /\
  counts_total [("0", 2%nat)] = 2%nat.
Proof.
  split; [vm_compute; reflexivity|].
  apply (execute_conserves_shots demonstrate_backend (mkCircuit 1 1 [IMeasure 0 0]) [0; 1 # 2]).
  vm_compute. reflexivity.
Defined.
